(** * Quiz progression of [src/app/page.tsx]

    A shallow embedding of the [Home] component: the question bank, the
    flattened question list ([questions], the [useMemo] of lines 45-57), the
    five [useState] cells as one record, the event handlers, and the
    conditional rendering that decides which handler a click can reach.

    Identifiers keep the names of the source.  The six operations of the
    specification ([selectQuiz], [selectChoice], [submit], [advance],
    [replay], [exitQuiz]) are the clicks on the corresponding buttons: the
    handler runs when the button is on the page and enabled, and nothing
    happens otherwise. *)

From Stdlib Require Import ZArith Lia.
From stdpp Require Import gmap strings list sorting.

(** ** Data model (lines 6-28) *)

Definition ChoiceKey := string.

Record Question := mkQuestion {
  number : Z;
  question : string;
  choices : gmap string string;
  correct_answer : ChoiceKey;
  why_correct : string;
  why_incorrect : gmap string string
}.

(** [cat_questions] is the field [questions] of the source type; the name
    [questions] is kept for the memoised list of line 45. *)
Record Category := mkCategory {
  category : string;
  cat_questions : list Question
}.

Record Quiz := mkQuiz {
  categories : list Category
}.

(** [EnrichedQuestion = Question & { category: string }] *)
Record EnrichedQuestion := mkEnriched {
  base : Question;
  e_category : string
}.

Definition e_number (q : EnrichedQuestion) : Z := number (base q).

(** [const quizOrder = ["quiz1", "quiz2", "quiz3"]] (line 30) *)
Definition quizOrder : list string := ["quiz1"; "quiz2"; "quiz3"].

(** ** JavaScript truthiness of the values the component tests

    [!x], [Boolean(x)] and [x && ...] on a [string | null]: [null] and the
    empty string are falsy, every other string is truthy. *)
Definition truthy (x : option string) : bool :=
  match x with
  | None => false
  | Some k => negb (String.eqb k "")
  end.

(** ** The sort of line 56

    [Array.prototype.sort] is stable; the comparator is
    [(a, b) => a.number - b.number], so [a] goes before [b] when the
    difference is negative and keeps its place when it is zero. *)
Definition compareFn (a b : EnrichedQuestion) : Z := (e_number a - e_number b)%Z.

Fixpoint sort_insert (x : EnrichedQuestion) (l : list EnrichedQuestion)
  : list EnrichedQuestion :=
  match l with
  | [] => [x]
  | y :: l' => if (compareFn x y <=? 0)%Z then x :: y :: l' else y :: sort_insert x l'
  end.

Fixpoint sort (l : list EnrichedQuestion) : list EnrichedQuestion :=
  match l with
  | [] => []
  | x :: l' => sort_insert x (sort l')
  end.

(** [category.questions.map((question) => ({...question, category: category.category}))] *)
Definition annotate (c : Category) : list EnrichedQuestion :=
  map (fun q => mkEnriched q (category c)) (cat_questions c).

(** [quiz.categories.flatMap(...)], before the sort *)
Definition enriched (quiz : Quiz) : list EnrichedQuestion :=
  flat_map annotate (categories quiz).

(** Lines 49-56: what is returned once the quiz has been found. *)
Definition flatten (quiz : Quiz) : list EnrichedQuestion :=
  sort (enriched quiz).

(** ** The component state (lines 37-43) *)

Record Session := mkSession {
  activeQuizId : option string;
  questionIndex : nat;
  selectedChoice : option ChoiceKey;
  finished : bool;
  submitted : bool
}.

(** The user's clicks.  [ClickQuiz] is a button of the quiz picker
    (line 128), [ClickChoice] a choice button (line 227), [ClickSubmit] and
    [ClickNext] the buttons of lines 280 and 294, [ClickReplay] and
    [ClickPickAnother] the two buttons of the completion panel. *)
Inductive Event :=
  | ClickQuiz (quizId : string)
  | ClickChoice (key : ChoiceKey)
  | ClickSubmit
  | ClickNext
  | ClickReplay
  | ClickPickAnother.

(** ** The label of a quiz (line 34)

    [id.replace("quiz", "Quiz ")]: with a string pattern, [replace] rewrites
    the first occurrence only, and returns the string as it is when there is
    none.  The replacement text has no [$], so it is inserted literally. *)
Fixpoint skip (n : nat) (s : string) : string :=
  match n, s with
  | O, _ => s
  | S n', String _ s' => skip n' s'
  | S _, EmptyString => EmptyString
  end.

Fixpoint replace (pattern replacement s : string) : string :=
  if String.prefix pattern s
  then replacement +:+ skip (String.length pattern) s
  else match s with
       | EmptyString => EmptyString
       | String c s' => String c (replace pattern replacement s')
       end.

Definition formatQuizLabel (id : string) : string := replace "quiz" "Quiz " id.

(** ** Texts and styles the render chooses between *)


(** The four class lists of lines 217-221. *)
Definition emeraldClass : string :=
  "border-emerald-500 bg-emerald-500/10 text-emerald-50 shadow-sm shadow-emerald-900/40".
Definition roseClass : string :=
  "border-rose-500 bg-rose-500/10 text-rose-50 shadow-sm shadow-rose-900/40".
Definition pickedClass : string :=
  "border-slate-100 bg-slate-900 text-slate-50 shadow-sm".
Definition plainClass : string :=
  "border-slate-800 bg-slate-900 text-slate-50 hover:border-slate-600 hover:bg-slate-800".


Section Home.

(** [const quizBank = bankData as QuizBank]: the parsed JSON file, an
    object used as a map from quiz identifiers to quizzes. *)
Variable quizBank : gmap string Quiz.

(** Lines 45-57.  The first test of line 46 is on truthiness, so the empty
    identifier is treated like [null]; the second is on the bank entry. *)
Definition questions (quizId : option string) : list EnrichedQuestion :=
  if negb (truthy quizId) then []
  else match quizId ≫= (quizBank !!.) with
       | None => []
       | Some quiz => flatten quiz
       end.

(** [useState(quizBank.quiz1 ? "quiz1" : null)] and the other defaults. *)
Definition initial : Session :=
  {| activeQuizId := match quizBank !! "quiz1" with
                     | Some _ => Some "quiz1"
                     | None => None
                     end;
     questionIndex := 0;
     selectedChoice := None;
     finished := false;
     submitted := false |}.

(** *** Derived values of a render *)

Definition orderedQuestions (s : Session) : list EnrichedQuestion :=
  questions (activeQuizId s).

(** [questions[questionIndex]]: [undefined] out of range. *)
Definition currentQuestion (s : Session) : option EnrichedQuestion :=
  orderedQuestions s !! questionIndex s.

(** Lines 68-71. *)
Definition isCorrect (s : Session) : bool :=
  match currentQuestion s with
  | Some q =>
      if submitted s && truthy (selectedChoice s)
      then bool_decide (selectedChoice s = Some (correct_answer (base q)))
      else false
  | None => false
  end.

(** Line 108. *)
Definition readyToSubmit (s : Session) : bool := truthy (selectedChoice s).

(** Line 109. *)
Definition noQuestionsLoaded (s : Session) : bool :=
  truthy (activeQuizId s) && (length (orderedQuestions s) =? 0).

(** *** The body of the reset effect and the handlers *)

(** Lines 61-64. *)
Definition resetProgress (s : Session) : Session :=
  {| activeQuizId := activeQuizId s;
     questionIndex := 0;
     selectedChoice := None;
     finished := false;
     submitted := false |}.

(** [useEffect(..., [activeQuizId])] after an update from [prev] to [next]:
    the body runs when the dependency differs from the one of the previous
    render, and is skipped when it is the same. *)
Definition useEffect (prev next : Session) : Session :=
  if decide (activeQuizId prev = activeQuizId next) then next
  else resetProgress next.

(** [setActiveQuizId(v)] followed by the effects of the next render. *)
Definition setActiveQuizId (v : option string) (s : Session) : Session :=
  useEffect s
    {| activeQuizId := v;
       questionIndex := questionIndex s;
       selectedChoice := selectedChoice s;
       finished := finished s;
       submitted := submitted s |}.

(** Lines 80-83. *)
Definition handleSelect (choice : ChoiceKey) (s : Session) : Session :=
  {| activeQuizId := activeQuizId s;
     questionIndex := questionIndex s;
     selectedChoice := Some choice;
     finished := finished s;
     submitted := false |}.

(** Lines 85-88. *)
Definition handleSubmit (s : Session) : Session :=
  if negb (truthy (selectedChoice s)) then s
  else {| activeQuizId := activeQuizId s;
          questionIndex := questionIndex s;
          selectedChoice := selectedChoice s;
          finished := finished s;
          submitted := true |}.

(** Lines 90-98.  The comparison is on integers: [questions.length - 1]
    is [-1] for the empty list. *)
Definition handleNext (s : Session) : Session :=
  if (Z.of_nat (questionIndex s) <? Z.of_nat (length (orderedQuestions s)) - 1)%Z
  then {| activeQuizId := activeQuizId s;
          questionIndex := questionIndex s + 1;
          selectedChoice := None;
          finished := finished s;
          submitted := false |}
  else {| activeQuizId := activeQuizId s;
          questionIndex := questionIndex s;
          selectedChoice := selectedChoice s;
          finished := true;
          submitted := submitted s |}.

(** Lines 320-324, the handler of "Replay this quiz". *)
Definition handleReplay (s : Session) : Session :=
  {| activeQuizId := activeQuizId s;
     questionIndex := 0;
     selectedChoice := None;
     finished := false;
     submitted := submitted s |}.

(** *** What is on the page *)

(** Lines 183-186: the condition under which the question panel, with its
    choice, Submit and Next buttons, is rendered. *)
Definition questionShown (s : Session) : bool :=
  negb (noQuestionsLoaded s) && truthy (activeQuizId s)
  && bool_decide (is_Some (currentQuestion s)) && negb (finished s).

(** Line 277 and [disabled={!readyToSubmit}] of line 281. *)
Definition submitEnabled (s : Session) : bool :=
  questionShown s && negb (submitted s) && readyToSubmit s.

(** Line 291. *)
Definition advanceEnabled (s : Session) : bool :=
  questionShown s && submitted s.

(** Line 209: one button per entry of [currentQuestion.choices]. *)
Definition choiceOffered (key : ChoiceKey) (s : Session) : bool :=
  match currentQuestion s with
  | Some q => bool_decide (key ∈ dom (choices (base q)))
  | None => false
  end.

(** *** The operations, as clicks *)

(** Line 128.  The picker is always rendered. *)
Definition selectQuiz (quizId : string) (s : Session) : Session :=
  setActiveQuizId (Some quizId) s.

(** Line 227: the choice buttons are part of the question panel. *)
Definition selectChoice (key : ChoiceKey) (s : Session) : Session :=
  if questionShown s then handleSelect key s else s.

(** Lines 277-281: the Submit button is in the panel while [!submitted],
    and disabled while [!readyToSubmit]. *)
Definition submit (s : Session) : Session :=
  if submitEnabled s then handleSubmit s else s.

(** Lines 291-294: the Next/Finish button is in the panel while
    [submitted]. *)
Definition advance (s : Session) : Session :=
  if advanceEnabled s then handleNext s else s.

(** Line 307: the completion panel is rendered when [finished]. *)
Definition replay (s : Session) : Session :=
  if finished s then handleReplay s else s.

(** Line 331. *)
Definition exitQuiz (s : Session) : Session :=
  if finished s then setActiveQuizId None s else s.

(** One click.  A quiz button exists for the identifiers of [quizOrder]
    (line 121), a choice button for the keys of the current question. *)
Definition step (e : Event) (s : Session) : Session :=
  match e with
  | ClickQuiz quizId =>
      if bool_decide (quizId ∈ quizOrder) then selectQuiz quizId s else s
  | ClickChoice key =>
      if choiceOffered key s then selectChoice key s else s
  | ClickSubmit => submit s
  | ClickNext => advance s
  | ClickReplay => replay s
  | ClickPickAnother => exitQuiz s
  end.

Fixpoint run (es : list Event) (s : Session) : Session :=
  match es with
  | [] => s
  | e :: es' => run es' (step e s)
  end.

(** The sessions the component can be in. *)
Inductive Reachable : Session → Prop :=
  | Reachable_initial : Reachable initial
  | Reachable_step e s : Reachable s → Reachable (step e s).

(** What every reachable session satisfies: a finished session was
    submitted on its last question, a submitted choice is not the empty
    key, the index stays inside a non-empty list, and a choice is only
    ever held for a question that exists. *)
Definition consistent (s : Session) : Prop :=
  (finished s = true →
     submitted s = true ∧ S (questionIndex s) = length (orderedQuestions s))
  ∧ (submitted s = true → selectedChoice s ≠ Some "")
  ∧ (questionIndex s = 0 ∨ questionIndex s < length (orderedQuestions s))
  ∧ (is_Some (selectedChoice s) →
     questionIndex s < length (orderedQuestions s)).

(** Every click on a session whose question list stays empty. *)
Fixpoint keepsEmpty (es : list Event) (s : Session) : Prop :=
  orderedQuestions s = [] ∧
  match es with
  | [] => True
  | e :: es' => keepsEmpty es' (step e s)
  end.

(** *** Feedback, labels and panels of a render *)



(** Lines 211-221, for the button of [key] while [q] is the current
    question. *)
Definition statusClass (key : ChoiceKey) (q : EnrichedQuestion) (s : Session)
  : string :=
  let isPicked := bool_decide (selectedChoice s = Some key) in
  let isCorrectChoice := bool_decide (key = correct_answer (base q)) in
  if submitted s && isPicked
  then (if isCorrectChoice then emeraldClass else roseClass)
  else if isPicked then pickedClass else plainClass.



(** Lines 297-299. *)
Definition nextLabel (s : Session) : string :=
  if (Z.of_nat (questionIndex s) =? Z.of_nat (length (orderedQuestions s)) - 1)%Z
  then "Finish" else "Next".

(** Line 198: the two numbers of "Question i of n". *)
Definition progress (s : Session) : nat * nat :=
  (questionIndex s + 1, length (orderedQuestions s)).

(** Line 122. *)
Definition available (quizId : string) : bool :=
  match quizBank !! quizId with
  | Some _ => true
  | None => false
  end.

(** Line 123. *)
Definition isActive (quizId : string) (s : Session) : bool :=
  bool_decide (activeQuizId s = Some quizId).

(** Line 161: the invitation to pick a quiz.  Lines 172, 183-186 and 307
    are [noQuestionsLoaded], [questionShown] and [finished]. *)
Definition promptShown (s : Session) : bool := negb (truthy (activeQuizId s)).

(** The panels of the second section that are on the page. *)
Definition panels (s : Session) : list bool :=
  [promptShown s; noQuestionsLoaded s; questionShown s; finished s].


(** The choice held by a session is a key of its current question. *)
Definition choiceOnPage (s : Session) : Prop :=
  ∀ key, selectedChoice s = Some key →
         ∃ q, currentQuestion s = Some q ∧ key ∈ dom (choices (base q)).

End Home.

(** ** A small bank for the examples

    [quiz1] lists question 2 before question 1 in source order; [quiz2] has
    a question one of whose choice keys is the empty string; [quiz3] is
    absent. *)

Definition demoQ1 : Question :=
  {| number := 1;
     question := "Which traversal uses a queue?";
     choices := <["A" := "Breadth-first"]> (<["B" := "Depth-first"]> ∅);
     correct_answer := "A";
     why_correct := "Breadth-first search visits level by level.";
     why_incorrect := <["B" := "Depth-first search uses a stack."]> ∅ |}.

Definition demoQ2 : Question :=
  {| number := 2;
     question := "Which sort is stable?";
     choices := <["A" := "Heap sort"]> (<["B" := "Merge sort"]> ∅);
     correct_answer := "B";
     why_correct := "Merge sort keeps equal keys in order.";
     why_incorrect := <["A" := "Heap sort may reorder equal keys."]> ∅ |}.

Definition demoQ3 : Question :=
  {| number := 7;
     question := "Which key is blank?";
     choices := <["" := "This one"]> (<["A" := "Not this one"]> ∅);
     correct_answer := "A";
     why_correct := "It is labelled.";
     why_incorrect := <["" := "It has no label."]> ∅ |}.

Definition demoQuiz1 : Quiz :=
  {| categories := [ {| category := "Sorting"; cat_questions := [demoQ2] |};
                     {| category := "Graphs"; cat_questions := [demoQ1] |} ] |}.

Definition demoQuiz2 : Quiz :=
  {| categories := [ {| category := "Blank"; cat_questions := [demoQ3] |} ] |}.

Definition demoBank : gmap string Quiz :=
  <["quiz1" := demoQuiz1]> (<["quiz2" := demoQuiz2]> ∅).

(** The first question of [quiz1] answered wrongly and submitted. *)
Definition demoAnswered : Session :=
  run demoBank [ClickChoice "B"; ClickSubmit] (initial demoBank).

(** [quiz1] played to the end. *)
Definition demoFinished : Session :=
  run demoBank [ClickChoice "A"; ClickSubmit; ClickNext;
                ClickChoice "B"; ClickSubmit; ClickNext] (initial demoBank).

(** The second question of [quiz1] answered and submitted. *)
Definition demoSecond : Session :=
  run demoBank [ClickChoice "A"; ClickSubmit; ClickNext;
                ClickChoice "B"; ClickSubmit] (initial demoBank).

(** The blank choice of [quiz2] picked. *)
Definition demoBlankPicked : Session :=
  run demoBank [ClickQuiz "quiz2"; ClickChoice ""] (initial demoBank).

(** [quiz3], which the bank does not have, selected. *)
Definition demoAbsent : Session :=
  run demoBank [ClickQuiz "quiz3"] (initial demoBank).

(** ** Facts about the sort *)

Definition number_le (a b : EnrichedQuestion) : Prop := (e_number a <= e_number b)%Z.
Definition number_lt (a b : EnrichedQuestion) : Prop := (e_number a < e_number b)%Z.

Lemma sort_insert_perm x l : sort_insert x l ≡ₚ x :: l.
Proof.
  induction l as [|y l IH]; simpl; [done|].
  destruct (compareFn x y <=? 0)%Z; [done|].
  rewrite IH. apply Permutation_swap.
Qed.

Lemma sort_perm l : sort l ≡ₚ l.
Proof.
  induction l as [|x l IH]; simpl; [done|].
  by rewrite sort_insert_perm, IH.
Qed.

Lemma sort_insert_HdRel a x l :
  number_le a x → HdRel number_le a l → HdRel number_le a (sort_insert x l).
Proof.
  intros Hax Hal. destruct l as [|y l]; simpl.
  - by constructor.
  - destruct (compareFn x y <=? 0)%Z; constructor; [done|].
    by inversion Hal.
Qed.

Lemma sort_insert_sorted x l :
  Sorted number_le l → Sorted number_le (sort_insert x l).
Proof.
  induction 1 as [|y l Hl IH Hhd]; simpl.
  - repeat constructor.
  - destruct (compareFn x y <=? 0)%Z eqn:Hc.
    + constructor; [by constructor|].
      constructor. unfold number_le, compareFn in *. lia.
    + constructor; [done|].
      apply sort_insert_HdRel; [|done].
      unfold number_le, compareFn in *. lia.
Qed.

Lemma sort_sorted l : Sorted number_le (sort l).
Proof.
  induction l as [|x l IH]; simpl; [constructor|].
  by apply sort_insert_sorted.
Qed.

(** Equal numbers keep their source order: the sort is stable. *)
Lemma sort_insert_filter n x l :
  filter (λ q, e_number q = n) (sort_insert x l)
  = filter (λ q, e_number q = n) (x :: l).
Proof.
  induction l as [|y l IH]; simpl; [done|].
  destruct (compareFn x y <=? 0)%Z eqn:Hc; [done|].
  rewrite filter_cons, IH, !filter_cons.
  unfold compareFn in Hc.
  repeat case_decide; try done; lia.
Qed.

Lemma sort_stable n l :
  filter (λ q, e_number q = n) (sort l) = filter (λ q, e_number q = n) l.
Proof.
  induction l as [|x l IH]; simpl; [done|].
  by rewrite sort_insert_filter, !filter_cons, IH.
Qed.

(** The order is fixed by sortedness and stability alone, so the list does
    not depend on which stable algorithm the engine runs. *)
Lemma stable_sorted_unique l1 l2 :
  Sorted number_le l1 → Sorted number_le l2 →
  (∀ n, filter (λ q, e_number q = n) l1 = filter (λ q, e_number q = n) l2) →
  l1 = l2.
Proof.
  assert (Htrans : Transitive number_le).
  { intros a b c. unfold number_le. lia. }
  intros H1 H2. apply Sorted_StronglySorted in H1, H2; try done.
  revert l2 H2. induction H1 as [|x l1 Hs1 IH Hx]; intros l2 H2 Hf.
  - destruct l2 as [|y l2]; [done|].
    specialize (Hf (e_number y)). rewrite filter_cons_True in Hf; done.
  - destruct H2 as [|y l2 Hs2 Hy].
    { specialize (Hf (e_number x)). rewrite filter_cons_True in Hf; done. }
    assert (Hxy : number_le x y).
    { assert (Hin : y ∈ filter (λ q, e_number q = e_number y) (x :: l1)).
      { rewrite Hf, filter_cons_True by done. left. }
      apply list_elem_of_filter in Hin as [_ Hin].
      apply elem_of_cons in Hin as [->|Hin]; [unfold number_le; lia|].
      by eapply Forall_forall in Hx. }
    assert (Hyx : number_le y x).
    { assert (Hin : x ∈ filter (λ q, e_number q = e_number x) (y :: l2)).
      { rewrite <- Hf, filter_cons_True by done. left. }
      apply list_elem_of_filter in Hin as [_ Hin].
      apply elem_of_cons in Hin as [->|Hin]; [unfold number_le; lia|].
      by eapply Forall_forall in Hy. }
    assert (Heq : e_number y = e_number x).
    { unfold number_le in *. lia. }
    assert (x = y) as <-.
    { specialize (Hf (e_number x)).
      rewrite !filter_cons_True in Hf by done. congruence. }
    f_equal. apply IH; [done|]. intros n. specialize (Hf n).
    rewrite !filter_cons in Hf. case_decide; congruence.
Qed.

(** With pairwise distinct numbers the order is strict. *)
Lemma sort_strict l :
  NoDup (e_number <$> l) → Sorted number_lt (sort l).
Proof.
  intros Hnd. rewrite <- (sort_perm l) in Hnd.
  pose proof (sort_sorted l) as Hs.
  revert Hnd. induction Hs as [|x k Hk IH Hhd]; intros Hnd; [constructor|].
  rewrite fmap_cons in Hnd. apply NoDup_cons in Hnd as [Hx Hnd].
  constructor; [by apply IH|].
  destruct Hhd as [|y k' Hxy]; constructor.
  unfold number_lt, number_le in *.
  assert (e_number x ≠ e_number y); [|lia].
  intros Heq. apply Hx. rewrite fmap_cons, Heq. left.
Qed.


(** ** The flattened question list *)

Lemma enriched_elem_of quiz q :
  q ∈ enriched quiz ↔
  ∃ c b, c ∈ categories quiz ∧ b ∈ cat_questions c
         ∧ q = {| base := b; e_category := category c |}.
Proof.
  unfold enriched. rewrite list_elem_of_In, in_flat_map. split.
  - intros (c & Hc & Hq). unfold annotate in Hq.
    apply in_map_iff in Hq as (b & <- & Hb).
    exists c, b. by rewrite !list_elem_of_In.
  - intros (c & b & Hc & Hb & ->). exists c.
    rewrite <- list_elem_of_In. split; [done|].
    unfold annotate. apply in_map_iff. exists b. by rewrite <- list_elem_of_In.
Qed.

Lemma enriched_no_questions quiz :
  Forall (λ c, cat_questions c = []) (categories quiz) → enriched quiz = [].
Proof.
  unfold enriched. induction 1 as [|c cs Hc _ IH]; simpl; [done|].
  unfold annotate at 1. by rewrite Hc, IH.
Qed.

Lemma questions_found quizBank quizId quiz :
  quizId ≠ "" → quizBank !! quizId = Some quiz →
  questions quizBank (Some quizId) = flatten quiz.
Proof.
  intros Hne Hq. unfold questions. simpl.
  destruct (String.eqb_spec quizId ""); [done|]. simpl. by rewrite Hq.
Qed.

(** C1.  For a quiz of the bank selected by its (non-empty) identifier,
    [questions] is the list of all questions of all categories, each one
    carrying the name of its category, in ascending order of [number]
    (strictly ascending when the numbers are pairwise distinct; equal
    numbers keep their source order).  The list is empty when the
    identifier is not in the bank, when the quiz has no category and when
    no category has a question.  The result depends on the quiz alone. *)
Theorem questions_sorted_concatenation (quizBank : gmap string Quiz) (quizId : string) :
  (∀ quiz, quizId ≠ "" → quizBank !! quizId = Some quiz →
     questions quizBank (Some quizId) ≡ₚ flat_map annotate (categories quiz)
     ∧ (∀ q, q ∈ questions quizBank (Some quizId) ↔
             ∃ c b, c ∈ categories quiz ∧ b ∈ cat_questions c
                    ∧ q = {| base := b; e_category := category c |})
     ∧ Sorted number_le (questions quizBank (Some quizId))
     ∧ (NoDup (e_number <$> flat_map annotate (categories quiz)) →
        Sorted number_lt (questions quizBank (Some quizId)))
     ∧ (∀ n, filter (λ q, e_number q = n) (questions quizBank (Some quizId))
             = filter (λ q, e_number q = n) (flat_map annotate (categories quiz)))
     ∧ (categories quiz = [] → questions quizBank (Some quizId) = [])
     ∧ (Forall (λ c, cat_questions c = []) (categories quiz) →
        questions quizBank (Some quizId) = [])
     ∧ (∀ otherBank otherId, otherId ≠ "" → otherBank !! otherId = Some quiz →
        questions otherBank (Some otherId) = questions quizBank (Some quizId)))
  ∧ (quizBank !! quizId = None → questions quizBank (Some quizId) = [])
  ∧ questions quizBank None = [].
Proof.
  split; [|split].
  - intros quiz Hne Hq. rewrite (questions_found _ _ _ Hne Hq).
    unfold flatten. fold (enriched quiz).
    split; [apply sort_perm|].
    split; [intros q; rewrite sort_perm; apply enriched_elem_of|].
    split; [apply sort_sorted|].
    split; [apply sort_strict|].
    split; [intros n; apply sort_stable|].
    split; [intros Hc; unfold enriched; by rewrite Hc|].
    split; [intros Hall; by rewrite enriched_no_questions|].
    intros otherBank otherId Hne' Hq'. by rewrite (questions_found _ _ _ Hne' Hq').
  - intros Hq. unfold questions. simpl.
    destruct (negb (negb (String.eqb quizId ""))); [done|]. by rewrite Hq.
  - done.
Qed.

Lemma questions_sorted_concatenation_witness :
  demoBank !! "quiz1" = Some demoQuiz1
  ∧ e_number <$> questions demoBank (Some "quiz1") = [1%Z; 2%Z]
  ∧ Sorted number_le (questions demoBank (Some "quiz1"))
  ∧ questions demoBank (Some "quiz3") = [].
Proof.
  destruct (questions_sorted_concatenation demoBank "quiz1") as [Hfound _].
  destruct (Hfound demoQuiz1) as (_ & _ & Hsorted & _); [done|reflexivity|].
  destruct (questions_sorted_concatenation demoBank "quiz3") as (_ & Habsent & _).
  split; [reflexivity|]. split; [reflexivity|]. split; [exact Hsorted|].
  apply Habsent. reflexivity.
Defined.

(** ** The session *)

Section Properties.

Variable quizBank : gmap string Quiz.

Lemma truthy_Some_ne k : truthy (Some k) = true ↔ k ≠ "".
Proof. simpl. by destruct (String.eqb_spec k ""). Qed.

Lemma questions_falsy quizId :
  truthy quizId = false → questions quizBank quizId = [].
Proof. intros H. unfold questions. by rewrite H. Qed.

Lemma questions_nonempty_truthy quizId :
  questions quizBank quizId ≠ [] → truthy quizId = true.
Proof.
  intros H. destruct (truthy quizId) eqn:Ht; [done|].
  by rewrite questions_falsy in H.
Qed.

Lemma currentQuestion_lt s :
  is_Some (currentQuestion quizBank s) ↔
  questionIndex s < length (orderedQuestions quizBank s).
Proof. unfold currentQuestion. apply lookup_lt_is_Some. Qed.

Lemma questionShown_spec s :
  questionShown quizBank s = true ↔
  is_Some (currentQuestion quizBank s) ∧ finished s = false.
Proof.
  unfold questionShown, noQuestionsLoaded.
  rewrite !andb_true_iff, !negb_true_iff, bool_decide_eq_true.
  split; [intros [[[_ _] Hq] Hf]; by split|]. intros [Hq Hf].
  assert (Hlt := proj1 (currentQuestion_lt s) Hq).
  assert (truthy (activeQuizId s) = true) as ->.
  { apply questions_nonempty_truthy. fold (orderedQuestions quizBank s).
    intros E. rewrite E in Hlt. simpl in Hlt. lia. }
  split_and!; try done. simpl. apply Nat.eqb_neq. lia.
Qed.

Lemma questionShown_empty s :
  orderedQuestions quizBank s = [] → questionShown quizBank s = false.
Proof.
  intros E. apply not_true_iff_false. rewrite questionShown_spec.
  rewrite currentQuestion_lt, E. simpl. lia.
Qed.

(** On mount the effect body runs once and changes nothing. *)
Lemma mount_effect : resetProgress (initial quizBank) = initial quizBank.
Proof. done. Qed.

(** *** Reachable sessions are consistent *)

Lemma consistent_initial : consistent quizBank (initial quizBank).
Proof.
  unfold consistent; simpl. split_and!; first [done | by left | by intros [? ?]].
Qed.

Lemma consistent_reset s : consistent quizBank (resetProgress s).
Proof.
  unfold consistent; simpl. split_and!; first [done | by left | by intros [? ?]].
Qed.

Lemma consistent_setActiveQuizId v s :
  consistent quizBank s → consistent quizBank (setActiveQuizId v s).
Proof.
  intros Hs. unfold setActiveQuizId, useEffect. simpl.
  case_decide as Hv; [|apply consistent_reset].
  destruct s; simpl in *. by subst.
Qed.

Lemma consistent_handleSelect key s :
  questionShown quizBank s = true →
  consistent quizBank s → consistent quizBank (handleSelect key s).
Proof.
  rewrite questionShown_spec, currentQuestion_lt.
  intros [Hlt Hf] (H1 & H2 & H3 & H4).
  unfold consistent, orderedQuestions in *; simpl.
  split_and!; try done.
  intros Hf'. by rewrite Hf in Hf'.
Qed.

Lemma consistent_handleSubmit s :
  consistent quizBank s → consistent quizBank (handleSubmit s).
Proof.
  intros (H1 & H2 & H3 & H4). unfold handleSubmit.
  destruct (truthy (selectedChoice s)) eqn:Ht; simpl; [|done].
  unfold consistent, orderedQuestions in *; simpl.
  split_and!; try done.
  - intros Hf. split; [done|]. by apply H1.
  - intros _ E. by rewrite E in Ht.
Qed.

Lemma consistent_handleNext s :
  advanceEnabled quizBank s = true →
  consistent quizBank s → consistent quizBank (handleNext quizBank s).
Proof.
  unfold advanceEnabled. rewrite andb_true_iff, questionShown_spec, currentQuestion_lt.
  intros [[Hlt Hf] Hsub] (H1 & H2 & H3 & H4). unfold handleNext.
  case_match eqn:Hc; unfold consistent, orderedQuestions in *; simpl.
  - apply Z.ltb_lt in Hc.
    split_and!; first [done | congruence | by intros [? ?] | right; lia].
  - apply Z.ltb_ge in Hc.
    split_and!; first [done | intros _; split; [done|lia]].
Qed.

Lemma consistent_handleReplay s :
  finished s = true →
  consistent quizBank s → consistent quizBank (handleReplay s).
Proof.
  intros Hf (H1 & H2 & H3 & H4).
  unfold consistent, orderedQuestions in *; simpl.
  split_and!; first [done | by left | by intros [? ?]].
Qed.

Lemma consistent_step e s :
  consistent quizBank s → consistent quizBank (step quizBank e s).
Proof.
  intros Hs. destruct e; simpl.
  - case_match; [|done]. by apply consistent_setActiveQuizId.
  - case_match; [|done]. unfold selectChoice.
    case_match eqn:Hshown; [|done]. by apply consistent_handleSelect.
  - unfold submit. case_match; [|done]. by apply consistent_handleSubmit.
  - unfold advance. case_match eqn:Hen; [|done]. by apply consistent_handleNext.
  - unfold replay. case_match eqn:Hf; [|done]. by apply consistent_handleReplay.
  - unfold exitQuiz. case_match; [|done]. by apply consistent_setActiveQuizId.
Qed.

Lemma Reachable_consistent s : Reachable quizBank s → consistent quizBank s.
Proof.
  induction 1 as [|e s _ IH]; [apply consistent_initial|].
  by apply consistent_step.
Qed.

Lemma Reachable_run es s :
  Reachable quizBank s → Reachable quizBank (run quizBank es s).
Proof.
  revert s. induction es as [|e es IH]; intros s Hs; simpl; [done|].
  apply IH. by constructor.
Qed.


(** *** Selecting a quiz *)

(** C2, as the code has it.  Selecting a quiz other than the active one
    (in the bank or not) makes it the active quiz and resets the progress:
    position 0, no selected choice, not submitted, not finished, and the
    question list is the one of the new identifier.  Selecting the quiz
    that is already active changes nothing: the reset effect of lines 59-65
    depends on [activeQuizId] and is skipped when it has not changed. *)
Theorem selectQuiz_resets_on_change (s : Session) (quizId : string) :
  (activeQuizId s ≠ Some quizId →
     selectQuiz quizId s
     = {| activeQuizId := Some quizId; questionIndex := 0;
          selectedChoice := None; finished := false; submitted := false |}
     ∧ orderedQuestions quizBank (selectQuiz quizId s)
       = questions quizBank (Some quizId))
  ∧ (activeQuizId s = Some quizId → selectQuiz quizId s = s).
Proof.
  unfold selectQuiz, setActiveQuizId, useEffect. simpl. split; intros H.
  - by rewrite decide_False.
  - rewrite decide_True by done. destruct s; simpl in *. by subst.
Qed.

(** *** Advancing *)

(** C3.  While [submitted] is false the Next button is not on the page
    (line 291), so [advance] leaves the whole session as it is; and no
    click at all moves such a session forward or finishes it. *)
Theorem advance_rejected_unless_submitted (s : Session) :
  submitted s = false →
  advance quizBank s = s
  ∧ ∀ e, questionIndex (step quizBank e s) ≤ questionIndex s
         ∧ (finished (step quizBank e s) = true → finished s = true).
Proof.
  intros H.
  assert (Hadv : advance quizBank s = s).
  { unfold advance, advanceEnabled. by rewrite H, andb_false_r. }
  split; [done|]. intros e. destruct e; simpl.
  - case_match; [|done].
    unfold selectQuiz, setActiveQuizId, useEffect. simpl.
    destruct (decide (activeQuizId s = Some quizId)); simpl; [done|].
    split; [lia|done].
  - case_match; [|done]. unfold selectChoice. by case_match.
  - unfold submit, handleSubmit. by repeat case_match.
  - by rewrite Hadv.
  - unfold replay. destruct (finished s) eqn:Hf; simpl; [|by rewrite Hf].
    split; [lia|done].
  - unfold exitQuiz, setActiveQuizId, useEffect. simpl.
    destruct (finished s) eqn:Hf; [|by rewrite Hf].
    destruct (decide (activeQuizId s = None)); simpl; [done|].
    split; [lia|done].
Qed.

(** For the sessions the component can be in, the Next button is on the
    page exactly when the answer is submitted and the run is not over. *)
Lemma advanceEnabled_reachable s :
  Reachable quizBank s → orderedQuestions quizBank s ≠ [] →
  advanceEnabled quizBank s = true ↔ submitted s = true ∧ finished s = false.
Proof.
  intros Hr Hne. apply Reachable_consistent in Hr as (_ & _ & H3 & _).
  unfold advanceEnabled.
  rewrite andb_true_iff, questionShown_spec, currentQuestion_lt.
  split; [intros [[_ Hf] Hs]; by split|]. intros [Hs Hf]. split_and!; try done.
  destruct H3 as [H3|H3]; [|done]. rewrite H3.
  destruct (orderedQuestions quizBank s); [done|]. simpl. lia.
Qed.

(** C4.  On a non-empty list, when [advance] is available: from a position
    that is not the last one it moves to the next position and clears the
    selected choice and [submitted]; from the last position it sets
    [finished] and leaves the position (and the rest) as it is. *)
Theorem advance_moves_or_finishes (s : Session) :
  orderedQuestions quizBank s ≠ [] →
  advanceEnabled quizBank s = true →
  (S (questionIndex s) ≠ length (orderedQuestions quizBank s) →
     advance quizBank s
     = {| activeQuizId := activeQuizId s;
          questionIndex := S (questionIndex s);
          selectedChoice := None;
          finished := false;
          submitted := false |})
  ∧ (S (questionIndex s) = length (orderedQuestions quizBank s) →
     advance quizBank s
     = {| activeQuizId := activeQuizId s;
          questionIndex := questionIndex s;
          selectedChoice := selectedChoice s;
          finished := true;
          submitted := submitted s |}).
Proof.
  intros _ Hen. unfold advance. rewrite Hen.
  unfold advanceEnabled in Hen.
  rewrite andb_true_iff, questionShown_spec, currentQuestion_lt in Hen.
  destruct Hen as [[Hlt Hf] Hsub]. unfold handleNext.
  split; intros Hpos.
  - rewrite (proj2 (Z.ltb_lt _ _)) by lia.
    by rewrite Hf, Nat.add_1_r.
  - by rewrite (proj2 (Z.ltb_ge _ _)) by lia.
Qed.

(** *** Sessions without questions *)

Lemma step_empty_finished e s :
  orderedQuestions quizBank s = [] → finished s = false →
  finished (step quizBank e s) = false.
Proof.
  intros He Hf.
  assert (Hshown := questionShown_empty s He).
  destruct e; simpl.
  - case_match; [|done].
    unfold selectQuiz, setActiveQuizId, useEffect. simpl.
    by destruct (decide (activeQuizId s = Some quizId)).
  - case_match; [|done]. unfold selectChoice. by rewrite Hshown.
  - unfold submit, submitEnabled. by rewrite Hshown.
  - unfold advance, advanceEnabled. by rewrite Hshown.
  - unfold replay. by rewrite Hf.
  - unfold exitQuiz. by rewrite Hf.
Qed.

(** C5.  On a session whose question list is empty neither the Submit nor
    the Next button is on the page: [submit] and [advance] change nothing,
    and no sequence of clicks along which the list stays empty ever sets
    [finished]. *)
Theorem empty_list_inert (s : Session) :
  orderedQuestions quizBank s = [] →
  submit quizBank s = s
  ∧ advance quizBank s = s
  ∧ (∀ es, keepsEmpty quizBank es s → finished s = false →
           finished (run quizBank es s) = false).
Proof.
  intros He. assert (Hshown := questionShown_empty s He).
  split; [|split].
  - unfold submit, submitEnabled. by rewrite Hshown.
  - unfold advance, advanceEnabled. by rewrite Hshown.
  - clear He Hshown. intros es. revert s.
    induction es as [|e es IH]; intros s Hk Hf; simpl; [done|].
    destruct Hk as [He Hk]. apply IH; [done|].
    by apply step_empty_finished.
Qed.

(** *** Picking a choice *)

(** C6.  The choice buttons are on the page only while the session is not
    finished and there is a current question (lines 183-186); otherwise
    [selectChoice] changes nothing.  When they are, it records the key and
    clears [submitted], whatever it was. *)
Theorem selectChoice_guarded (key : ChoiceKey) (s : Session) :
  (finished s = true → selectChoice quizBank key s = s)
  ∧ (currentQuestion quizBank s = None → selectChoice quizBank key s = s)
  ∧ (finished s = false → is_Some (currentQuestion quizBank s) →
     selectChoice quizBank key s
     = {| activeQuizId := activeQuizId s;
          questionIndex := questionIndex s;
          selectedChoice := Some key;
          finished := false;
          submitted := false |}).
Proof.
  unfold selectChoice. split; [|split].
  - intros Hf. destruct (questionShown quizBank s) eqn:Hs; [|done].
    apply questionShown_spec in Hs as [_ Hs]. congruence.
  - intros Hq. destruct (questionShown quizBank s) eqn:Hs; [|done].
    apply questionShown_spec in Hs as [[q Hs] _]. congruence.
  - intros Hf Hq. rewrite (proj2 (questionShown_spec s)) by done.
    unfold handleSelect. by rewrite Hf.
Qed.


(** *** Submitting *)

(** For the sessions the component can be in, a held choice that is not
    yet submitted is always on a page that shows its question. *)
Lemma questionShown_reachable s :
  Reachable quizBank s → is_Some (selectedChoice s) → submitted s = false →
  questionShown quizBank s = true.
Proof.
  intros Hr Hsel Hsub. apply Reachable_consistent in Hr as (H1 & _ & _ & H4).
  apply questionShown_spec. rewrite currentQuestion_lt. split; [by apply H4|].
  destruct (finished s); [|done]. destruct H1 as [H1 _]; [done|]. congruence.
Qed.

(** C7, as the code has it.  [handleSubmit] and the Submit button test the
    selected choice for truthiness (lines 86 and 108).  With a non-empty
    key selected, [submitted] is true afterwards; with no choice, or with
    the empty key, the session is left exactly as it was. *)
Theorem submit_needs_nonempty_choice (s : Session) :
  (∀ k, selectedChoice s = Some k → k ≠ "" →
        submitted (handleSubmit s) = true
        ∧ (Reachable quizBank s → submitted (submit quizBank s) = true))
  ∧ (selectedChoice s = None ∨ selectedChoice s = Some "" →
     handleSubmit s = s ∧ submit quizBank s = s
     ∧ (submitted s = false → submitted (submit quizBank s) = false)).
Proof.
  split.
  - intros k Hk Hne.
    assert (Ht : truthy (selectedChoice s) = true).
    { rewrite Hk. by apply truthy_Some_ne. }
    assert (Hh : submitted (handleSubmit s) = true).
    { unfold handleSubmit. by rewrite Ht. }
    split; [done|]. intros Hr. unfold submit, submitEnabled.
    destruct (submitted s) eqn:Hsub.
    + by rewrite andb_false_r.
    + rewrite questionShown_reachable by (by rewrite ?Hk).
      unfold readyToSubmit. by rewrite Ht.
  - intros Hsel.
    assert (Ht : truthy (selectedChoice s) = false).
    { by destruct Hsel as [-> | ->]. }
    assert (Hh : handleSubmit s = s).
    { unfold handleSubmit. by rewrite Ht. }
    assert (Hs : submit quizBank s = s).
    { unfold submit. by destruct (submitEnabled quizBank s). }
    by rewrite Hh, Hs.
Qed.

(** *** Replaying *)

(** C8, what the code does.  From every finished session the component
    can be in, "Replay this quiz" goes back to position 0 with no selected
    choice and [finished] cleared, on the same quiz and the same list, but
    [submitted] is still true: lines 320-324 do not clear it. *)
Theorem replay_leaves_submitted (s : Session) :
  Reachable quizBank s → finished s = true →
  replay s
  = {| activeQuizId := activeQuizId s;
       questionIndex := 0;
       selectedChoice := None;
       finished := false;
       submitted := true |}
  ∧ orderedQuestions quizBank (replay s) = orderedQuestions quizBank s.
Proof.
  intros Hr Hf. apply Reachable_consistent in Hr as (H1 & _).
  destruct (H1 Hf) as [Hsub _].
  unfold replay, handleReplay. rewrite Hf, Hsub. done.
Qed.

(** *** Grading *)

Lemma isCorrect_true s :
  isCorrect quizBank s = true ↔
  submitted s = true
  ∧ ∃ q, currentQuestion quizBank s = Some q
         ∧ selectedChoice s = Some (correct_answer (base q))
         ∧ correct_answer (base q) ≠ "".
Proof.
  unfold isCorrect. destruct (currentQuestion quizBank s) as [q|].
  2: { split; [done|]. by intros (_ & q & Hq & _). }
  destruct (submitted s); simpl.
  2: { split; [done|]. by intros [? _]. }
  destruct (selectedChoice s) as [k|]; simpl.
  2: { split; [done|]. by intros (_ & q' & _ & Hk & _). }
  destruct (String.eqb_spec k ""); simpl.
  - split; [done|]. intros (_ & q' & ? & ? & ?). congruence.
  - rewrite bool_decide_eq_true. split.
    + intros Hk. split; [done|]. exists q. split_and!; congruence.
    + intros (_ & q' & ? & ? & ?). congruence.
Qed.

(** C9.  In every session the component can be in, [isCorrect] is true
    exactly when the answer is submitted and the selected choice is the
    [correct_answer] of the current question; it is false when nothing is
    submitted, when no choice is selected, when there is no current
    question, and when the selected choice is another key. *)
Theorem isCorrect_iff (s : Session) :
  Reachable quizBank s →
  (isCorrect quizBank s = true ↔
     submitted s = true
     ∧ ∃ q, currentQuestion quizBank s = Some q
            ∧ selectedChoice s = Some (correct_answer (base q)))
  ∧ (submitted s = false → isCorrect quizBank s = false)
  ∧ (selectedChoice s = None → isCorrect quizBank s = false)
  ∧ (currentQuestion quizBank s = None → isCorrect quizBank s = false)
  ∧ (∀ q k, currentQuestion quizBank s = Some q → selectedChoice s = Some k →
            k ≠ correct_answer (base q) → isCorrect quizBank s = false).
Proof.
  intros Hr. apply Reachable_consistent in Hr as (_ & H2 & _).
  split; [|split_and!].
  - rewrite isCorrect_true. split.
    + intros (Hs & q & Hq & Hk & _). eauto.
    + intros (Hs & q & Hq & Hk). split; [done|]. exists q. split_and!; try done.
      intros E. apply (H2 Hs). by rewrite Hk, E.
  - intros Hs. apply not_true_iff_false. rewrite isCorrect_true.
    intros [Hs' _]. congruence.
  - intros Hs. apply not_true_iff_false. rewrite isCorrect_true.
    intros (_ & q & _ & Hk & _). congruence.
  - intros Hs. apply not_true_iff_false. rewrite isCorrect_true.
    intros (_ & q & Hq & _). congruence.
  - intros q k Hq Hk Hne. apply not_true_iff_false. rewrite isCorrect_true.
    intros (_ & q' & Hq' & Hk' & _). congruence.
Qed.

(** *** The empty key *)

(** C10.  When the current question has a choice whose key is the empty
    string, clicking it records it, and Submit then does nothing:
    [submitted] stays false and the answer is not graded.  More generally
    a session holding the empty key is never changed by [handleSubmit] or
    by the Submit button, is never correct, and (for the sessions the
    component can be in) is never submitted. *)
Theorem empty_key_never_submitted (s : Session) :
  (∀ q, currentQuestion quizBank s = Some q → "" ∈ dom (choices (base q)) →
        finished s = false →
        let picked := step quizBank (ClickChoice "") s in
        selectedChoice picked = Some ""
        ∧ submit quizBank picked = picked
        ∧ submitted (submit quizBank picked) = false
        ∧ isCorrect quizBank (submit quizBank picked) = false)
  ∧ submitted (handleSubmit (handleSelect "" s)) = false
  ∧ (selectedChoice s = Some "" →
       handleSubmit s = s ∧ submit quizBank s = s
       ∧ isCorrect quizBank s = false
       ∧ (Reachable quizBank s → submitted s = false)).
Proof.
  split; [|split].
  - intros q Hq Hdom Hf. simpl.
    unfold choiceOffered. rewrite Hq, bool_decide_eq_true_2 by done.
    unfold selectChoice. rewrite (proj2 (questionShown_spec s)) by eauto.
    unfold submit, submitEnabled, readyToSubmit. simpl.
    rewrite andb_false_r. simpl. split_and!; try done.
    apply not_true_iff_false. rewrite isCorrect_true. simpl.
    intros (_ & q' & _ & Hk & Hne). congruence.
  - done.
  - intros Hsel. split_and!.
    + unfold handleSubmit. by rewrite Hsel.
    + unfold submit, submitEnabled, readyToSubmit. rewrite Hsel. simpl.
      by rewrite andb_false_r.
    + apply not_true_iff_false. rewrite isCorrect_true.
      intros (_ & q & _ & Hk & Hne). congruence.
    + intros Hr. apply Reachable_consistent in Hr as (_ & H2 & _).
      destruct (submitted s); [|done]. by destruct H2.
Qed.

End Properties.

(** ** The properties on the example bank *)

Ltac reach := cbv [demoAnswered demoSecond demoFinished demoBlankPicked
                   demoAbsent run]; repeat constructor.

Lemma demoSecond_reachable : Reachable demoBank demoSecond.
Proof. reach. Qed.

Lemma demoBlankPicked_reachable : Reachable demoBank demoBlankPicked.
Proof. reach. Qed.

(** The scenario of the specification: questions 2 and 1 in source order
    are asked as 1 then 2; a wrong answer to the first is graded wrong,
    Next moves on and clears the answer, the right answer to the second is
    graded right, and Next on the last question finishes the run. *)
Example scenario_two_questions :
  e_number <$> orderedQuestions demoBank (initial demoBank) = [1%Z; 2%Z]
  ∧ isCorrect demoBank demoAnswered = false
  ∧ step demoBank ClickNext demoAnswered
    = {| activeQuizId := Some "quiz1"; questionIndex := 1;
         selectedChoice := None; finished := false; submitted := false |}
  ∧ isCorrect demoBank demoSecond = true
  ∧ step demoBank ClickNext demoSecond
    = {| activeQuizId := Some "quiz1"; questionIndex := 1;
         selectedChoice := Some "B"; finished := true; submitted := true |}.
Proof. repeat split; reflexivity. Qed.

(** [handleNext] itself tests neither [submitted] nor the presence of a
    question; what keeps it from running is that its button is not
    rendered.  Called directly it would move on, or finish an empty quiz. *)
Example handleNext_has_no_guard :
  questionIndex (handleNext demoBank (initial demoBank)) = 1
  ∧ finished (handleNext demoBank demoAbsent) = true
  ∧ advance demoBank (initial demoBank) = initial demoBank
  ∧ advance demoBank demoAbsent = demoAbsent.
Proof. repeat split; reflexivity. Qed.

(** After a replay the Next button is on the page before any choice is
    picked, and a click on it skips the first question. *)
Example replay_then_next_skips :
  run demoBank [ClickReplay; ClickNext] demoFinished
  = {| activeQuizId := Some "quiz1"; questionIndex := 1;
       selectedChoice := None; finished := false; submitted := false |}.
Proof. reflexivity. Qed.

(** C2 as stated does not hold: on the second question of [quiz1], answered
    and submitted, a click on the [quiz1] button leaves the position at 1 and
    the answer submitted. *)
Lemma selectQuiz_active_quiz_keeps_progress :
  ¬ (∀ (quizBank : gmap string Quiz) (s : Session) (quizId : string),
       Reachable quizBank s →
       questionIndex (selectQuiz quizId s) = 0
       ∧ selectedChoice (selectQuiz quizId s) = None
       ∧ submitted (selectQuiz quizId s) = false
       ∧ finished (selectQuiz quizId s) = false
       ∧ orderedQuestions quizBank (selectQuiz quizId s)
         = questions quizBank (Some quizId)).
Proof.
  intros H.
  destruct (H demoBank demoSecond "quiz1" demoSecond_reachable) as [Hpos _].
  vm_compute in Hpos. discriminate Hpos.
Qed.

Lemma selectQuiz_resets_on_change_witness :
  activeQuizId demoSecond ≠ Some "quiz3"
  ∧ selectQuiz "quiz3" demoSecond
    = {| activeQuizId := Some "quiz3"; questionIndex := 0;
         selectedChoice := None; finished := false; submitted := false |}
  ∧ orderedQuestions demoBank (selectQuiz "quiz3" demoSecond) = []
  ∧ selectQuiz "quiz1" demoSecond = demoSecond.
Proof.
  assert (Hne : activeQuizId demoSecond ≠ Some "quiz3").
  { vm_compute. discriminate. }
  destruct (selectQuiz_resets_on_change demoBank demoSecond "quiz3") as [Hchange _].
  destruct (Hchange Hne) as [Hreset Hlist].
  destruct (selectQuiz_resets_on_change demoBank demoSecond "quiz1") as [_ Hsame].
  split; [exact Hne|]. split; [exact Hreset|].
  split; [rewrite Hlist; reflexivity|].
  apply Hsame. reflexivity.
Defined.

Lemma advance_rejected_unless_submitted_witness :
  submitted (initial demoBank) = false
  ∧ advance demoBank (initial demoBank) = initial demoBank.
Proof.
  split; [reflexivity|].
  apply (advance_rejected_unless_submitted demoBank (initial demoBank)).
  reflexivity.
Defined.

Lemma advance_moves_or_finishes_witness :
  advance demoBank demoAnswered
  = {| activeQuizId := Some "quiz1"; questionIndex := 1;
       selectedChoice := None; finished := false; submitted := false |}
  ∧ advance demoBank demoSecond
    = {| activeQuizId := Some "quiz1"; questionIndex := 1;
         selectedChoice := Some "B"; finished := true; submitted := true |}.
Proof.
  split.
  - destruct (advance_moves_or_finishes demoBank demoAnswered) as [Hmove _].
    + vm_compute. discriminate.
    + reflexivity.
    + rewrite Hmove; [reflexivity|]. vm_compute. discriminate.
  - destruct (advance_moves_or_finishes demoBank demoSecond) as [_ Hlast].
    + vm_compute. discriminate.
    + reflexivity.
    + rewrite Hlast; reflexivity.
Defined.

Lemma empty_list_inert_witness :
  orderedQuestions demoBank demoAbsent = []
  ∧ submit demoBank demoAbsent = demoAbsent
  ∧ advance demoBank demoAbsent = demoAbsent
  ∧ finished (run demoBank [ClickSubmit; ClickNext; ClickQuiz "quiz3"; ClickNext]
                  demoAbsent) = false.
Proof.
  destruct (empty_list_inert demoBank demoAbsent) as (Hsub & Hadv & Hrun);
    [reflexivity|].
  split; [reflexivity|]. split; [exact Hsub|]. split; [exact Hadv|].
  apply Hrun; [|reflexivity].
  vm_compute. repeat split.
Defined.

Lemma selectChoice_guarded_witness :
  selectChoice demoBank "A" demoFinished = demoFinished
  ∧ selectChoice demoBank "A" demoAbsent = demoAbsent
  ∧ selectChoice demoBank "A" demoAnswered
    = {| activeQuizId := Some "quiz1"; questionIndex := 0;
         selectedChoice := Some "A"; finished := false; submitted := false |}.
Proof.
  destruct (selectChoice_guarded demoBank "A" demoFinished) as (Hfin & _ & _).
  destruct (selectChoice_guarded demoBank "A" demoAbsent) as (_ & Hnone & _).
  destruct (selectChoice_guarded demoBank "A" demoAnswered) as (_ & _ & Hsel).
  split; [apply Hfin; reflexivity|].
  split; [apply Hnone; reflexivity|].
  rewrite Hsel; [reflexivity|reflexivity|].
  exists {| base := demoQ1; e_category := "Graphs" |}. reflexivity.
Defined.

(** C7 as stated does not hold: with the blank choice of [quiz2] picked, a
    choice is selected and Submit leaves [submitted] false. *)
Lemma submit_ignores_empty_key :
  ¬ (∀ (quizBank : gmap string Quiz) (s : Session),
       Reachable quizBank s →
       (is_Some (selectedChoice s) →
          submitted (submit quizBank s) = true ∧ submitted (handleSubmit s) = true)
       ∧ (selectedChoice s = None → submit quizBank s = s)).
Proof.
  intros H.
  destruct (H demoBank demoBlankPicked demoBlankPicked_reachable) as [Hset _].
  destruct Hset as [Hsub _]; [by exists ""|].
  vm_compute in Hsub. discriminate Hsub.
Qed.

Lemma submit_needs_nonempty_choice_witness :
  submitted (submit demoBank (step demoBank (ClickChoice "B") (initial demoBank)))
  = true
  ∧ submit demoBank demoBlankPicked = demoBlankPicked
  ∧ submit demoBank (initial demoBank) = initial demoBank.
Proof.
  destruct (submit_needs_nonempty_choice demoBank
              (step demoBank (ClickChoice "B") (initial demoBank))) as [Hset _].
  destruct (Hset "B") as [_ Hsub]; [reflexivity|discriminate|].
  destruct (submit_needs_nonempty_choice demoBank demoBlankPicked) as [_ Hblank].
  destruct Hblank as (_ & Hb & _); [right; reflexivity|].
  destruct (submit_needs_nonempty_choice demoBank (initial demoBank)) as [_ Hnone].
  destruct Hnone as (_ & Hn & _); [left; reflexivity|].
  split; [apply Hsub; repeat constructor|]. split; [exact Hb|exact Hn].
Defined.

Lemma replay_leaves_submitted_witness :
  finished demoFinished = true
  ∧ replay demoFinished
    = {| activeQuizId := Some "quiz1"; questionIndex := 0;
         selectedChoice := None; finished := false; submitted := true |}.
Proof.
  split; [reflexivity|].
  destruct (replay_leaves_submitted demoBank demoFinished) as [Hreplay _].
  - reach.
  - reflexivity.
  - rewrite Hreplay. reflexivity.
Defined.

Lemma isCorrect_iff_witness :
  isCorrect demoBank demoSecond = true
  ∧ isCorrect demoBank demoAnswered = false
  ∧ isCorrect demoBank (initial demoBank) = false.
Proof.
  destruct (isCorrect_iff demoBank demoSecond) as [Hiff _]; [reach|].
  destruct (isCorrect_iff demoBank demoAnswered) as (_ & _ & _ & _ & Hother);
    [reach|].
  destruct (isCorrect_iff demoBank (initial demoBank)) as (_ & Hnot & _);
    [constructor|].
  split; [|split].
  - apply Hiff. split; [reflexivity|].
    exists {| base := demoQ2; e_category := "Sorting" |}.
    split; reflexivity.
  - apply (Hother {| base := demoQ1; e_category := "Graphs" |} "B");
      [reflexivity|reflexivity|discriminate].
  - apply Hnot. reflexivity.
Defined.

Lemma empty_key_never_submitted_witness :
  submitted (submit demoBank
               (step demoBank (ClickChoice "") (selectQuiz "quiz2" (initial demoBank))))
  = false
  ∧ submitted demoBlankPicked = false.
Proof.
  destruct (empty_key_never_submitted demoBank (selectQuiz "quiz2" (initial demoBank)))
    as [Hpick _].
  destruct (empty_key_never_submitted demoBank demoBlankPicked) as (_ & _ & Hheld).
  split.
  - destruct (Hpick {| base := demoQ3; e_category := "Blank" |}) as (_ & _ & Hsub & _);
      [reflexivity| |reflexivity|exact Hsub].
    vm_compute. reflexivity.
  - destruct Hheld as (_ & _ & _ & Hnever); [reflexivity|].
    apply Hnever. reach.
Defined.

(** ** The quiz label *)

Lemma append_cons c a b : String c a +:+ b = String c (a +:+ b).
Proof. reflexivity. Qed.

Lemma prefix_app pattern s :
  String.prefix pattern s = true ↔ ∃ rest, s = pattern +:+ rest.
Proof.
  revert s. induction pattern as [|c pattern IH]; intros s.
  - destruct s; simpl; (split; [|done]); intros _; by eexists.
  - destruct s as [|d s]; simpl.
    + split; [done|]. intros [rest Hrest]. by rewrite append_cons in Hrest.
    + destruct (Ascii.ascii_dec c d) as [->|Hne].
      * rewrite IH. split; intros [rest Hrest]; exists rest;
          rewrite append_cons in *; congruence.
      * split; [done|]. intros [rest Hrest]. rewrite append_cons in Hrest.
        congruence.
Qed.

Lemma skip_app pattern rest : skip (String.length pattern) (pattern +:+ rest) = rest.
Proof.
  induction pattern as [|c pattern IH]; [by destruct rest|].
  by rewrite append_cons.
Qed.

Lemma replace_eq pattern replacement s :
  replace pattern replacement s
  = if String.prefix pattern s
    then replacement +:+ skip (String.length pattern) s
    else match s with
         | EmptyString => EmptyString
         | String c s' => String c (replace pattern replacement s')
         end.
Proof. by destruct s. Qed.

Lemma replace_first pattern replacement pre post :
  (∀ a b, pre +:+ pattern +:+ post = a +:+ pattern +:+ b →
          String.length pre ≤ String.length a) →
  replace pattern replacement (pre +:+ pattern +:+ post)
  = pre +:+ replacement +:+ post.
Proof.
  induction pre as [|c pre IH]; intros Hfirst.
  - change (EmptyString +:+ ?x) with x.
    rewrite replace_eq, (proj2 (prefix_app pattern _)) by eauto.
    by rewrite skip_app.
  - rewrite !append_cons in *. rewrite replace_eq.
    destruct (String.prefix pattern _) eqn:Hp.
    + apply prefix_app in Hp as [rest Hrest].
      specialize (Hfirst EmptyString rest Hrest). simpl in Hfirst. lia.
    + f_equal. apply IH. intros a b Hab.
      specialize (Hfirst (String c a) b). rewrite append_cons, Hab in Hfirst.
      specialize (Hfirst eq_refl). simpl in Hfirst. lia.
Qed.

Lemma replace_absent pattern replacement s :
  (∀ a b, s ≠ a +:+ pattern +:+ b) → replace pattern replacement s = s.
Proof.
  induction s as [|c s IH]; intros Habsent; rewrite replace_eq.
  - destruct (String.prefix pattern EmptyString) eqn:Hp; [|done].
    apply prefix_app in Hp as [rest Hrest].
    by destruct (Habsent EmptyString rest).
  - destruct (String.prefix pattern (String c s)) eqn:Hp.
    + apply prefix_app in Hp as [rest Hrest].
      by destruct (Habsent EmptyString rest).
    + f_equal. apply IH. intros a b Hab.
      apply (Habsent (String c a) b). by rewrite append_cons, Hab.
Qed.

(** X1.  [formatQuizLabel] rewrites the first occurrence of "quiz" in the
    identifier to "Quiz " and keeps what is before and after it; an
    identifier in which "quiz" does not occur is its own label. *)
Theorem formatQuizLabel_first_occurrence (id : string) :
  (∀ pre post, id = pre +:+ "quiz" +:+ post →
     (∀ a b, id = a +:+ "quiz" +:+ b → String.length pre ≤ String.length a) →
     formatQuizLabel id = pre +:+ "Quiz " +:+ post)
  ∧ ((∀ a b, id ≠ a +:+ "quiz" +:+ b) → formatQuizLabel id = id).
Proof.
  split.
  - intros pre post -> Hfirst. by apply replace_first.
  - apply replace_absent.
Qed.

Lemma formatQuizLabel_first_occurrence_witness :
  formatQuizLabel "quiz1" = "Quiz 1" ∧ formatQuizLabel "" = "".
Proof.
  destruct (formatQuizLabel_first_occurrence "quiz1") as [Hfirst _].
  destruct (formatQuizLabel_first_occurrence "") as [_ Habsent].
  split.
  - apply (Hfirst "" "1"); [reflexivity|]. intros a b _. simpl. lia.
  - apply Habsent. intros a b. destruct a; discriminate.
Defined.

(** X2.  The order produced by the sort of line 56 is the only one that is
    ascending in [number] and keeps questions of equal number in the order
    of the input. *)
Theorem sort_is_the_stable_order (l l' : list EnrichedQuestion) :
  Sorted number_le l' →
  (∀ n, filter (λ q, e_number q = n) l' = filter (λ q, e_number q = n) l) →
  l' = sort l.
Proof.
  intros Hsorted Hstable. apply stable_sorted_unique; [done|apply sort_sorted|].
  intros n. by rewrite sort_stable.
Qed.

Lemma sort_is_the_stable_order_witness :
  [ {| base := demoQ1; e_category := "Graphs" |};
    {| base := demoQ2; e_category := "Sorting" |} ] = sort (enriched demoQuiz1).
Proof.
  apply sort_is_the_stable_order.
  - apply Sorted_cons; [apply Sorted_cons; [apply Sorted_nil|apply HdRel_nil]|].
    apply HdRel_cons. unfold number_le, e_number. simpl. lia.
  - intros n. cbv [enriched demoQuiz1 categories flat_map annotate cat_questions
                   map app category].
    rewrite !filter_cons, !filter_nil. simpl.
    repeat case_decide; unfold e_number in *; simpl in *; first [done | lia].
Defined.

(** ** What the page shows *)

Section Rendering.

Variable quizBank : gmap string Quiz.




Lemma questions_sorted quizId : Sorted number_le (questions quizBank quizId).
Proof.
  unfold questions. destruct (negb (truthy quizId)); [constructor|].
  destruct (quizId ≫= _); [apply sort_sorted|constructor].
Qed.

Lemma finished_nonempty s :
  consistent quizBank s → finished s = true →
  questionIndex s < length (orderedQuestions quizBank s).
Proof. intros (H1 & _) Hf. destruct (H1 Hf) as [_ Hlen]. lia. Qed.


(** X4.  Whenever the Next button is on the page, it reads "Finish" exactly
    when a click on it ends the run, and "Next" exactly when the click
    moves to the following question. *)
Theorem nextLabel_announces (s : Session) :
  advanceEnabled quizBank s = true →
  (nextLabel quizBank s = "Finish" ↔ finished (advance quizBank s) = true)
  ∧ (nextLabel quizBank s = "Next" ↔
     questionIndex (advance quizBank s) = S (questionIndex s)).
Proof.
  intros Hen. unfold advance. rewrite Hen.
  unfold advanceEnabled in Hen.
  rewrite andb_true_iff, questionShown_spec, currentQuestion_lt in Hen.
  destruct Hen as [[Hlt Hf] _]. unfold nextLabel, handleNext.
  destruct (Z.eqb_spec (Z.of_nat (questionIndex s))
              (Z.of_nat (length (orderedQuestions quizBank s)) - 1)) as [He|Hne].
  - rewrite (proj2 (Z.ltb_ge _ _)) by lia. simpl. split; split; try done. lia.
  - rewrite (proj2 (Z.ltb_lt _ _)) by lia. simpl. rewrite Hf.
    split; split; try done. lia.
Qed.

(** X5.  On a quiz that has questions the index never leaves the list: in
    every session the component can be in there is a current question, and
    the counter "Question i of n" has 1 ≤ i ≤ n. *)
Theorem index_in_bounds (s : Session) :
  Reachable quizBank s → orderedQuestions quizBank s ≠ [] →
  is_Some (currentQuestion quizBank s)
  ∧ 1 ≤ (progress quizBank s).1 ≤ (progress quizBank s).2.
Proof.
  intros Hr Hne. apply Reachable_consistent in Hr as (_ & _ & H3 & _).
  assert (Hlt : questionIndex s < length (orderedQuestions quizBank s)).
  { destruct H3 as [H0|Hlt]; [|done]. rewrite H0.
    destruct (orderedQuestions quizBank s); [done|]. simpl. lia. }
  split; [by apply currentQuestion_lt|]. unfold progress. simpl. lia.
Qed.

(** X6.  "Pick another quiz" on a finished session always leads to the
    empty session: no active quiz, position 0, nothing selected, submitted
    or finished, with the invitation to pick a quiz on the page. *)
Theorem exitQuiz_clears (s : Session) :
  Reachable quizBank s → finished s = true →
  exitQuiz s
  = {| activeQuizId := None; questionIndex := 0; selectedChoice := None;
       finished := false; submitted := false |}
  ∧ panels quizBank (exitQuiz s) = [true; false; false; false].
Proof.
  intros Hr Hf. pose proof (Reachable_consistent quizBank s Hr) as Hc.
  pose proof (finished_nonempty s Hc Hf) as Hlt.
  assert (Ha : activeQuizId s ≠ None).
  { intros Ha. unfold orderedQuestions in Hlt. rewrite Ha in Hlt.
    simpl in Hlt. lia. }
  assert (He : exitQuiz s
    = {| activeQuizId := None; questionIndex := 0; selectedChoice := None;
         finished := false; submitted := false |}).
  { unfold exitQuiz, setActiveQuizId, useEffect. rewrite Hf. simpl.
    by rewrite decide_False. }
  by rewrite He.
Qed.






Lemma Sorted_lookup_le (l : list EnrichedQuestion) i j a b :
  Sorted number_le l → i ≤ j → l !! i = Some a → l !! j = Some b →
  number_le a b.
Proof.
  intros Hs Hij Ha Hb.
  assert (Htrans : Transitive number_le).
  { intros x y z. unfold number_le. lia. }
  apply Sorted_StronglySorted in Hs; [|done].
  revert i j Hij Ha Hb. induction Hs as [|x l Hl IH Hx]; intros i j Hij Ha Hb.
  - by rewrite lookup_nil in Ha.
  - destruct i as [|i]; destruct j as [|j]; simpl in *; simplify_eq.
    + unfold number_le. lia.
    + eapply Forall_forall in Hx; [done|]. by eapply list_elem_of_lookup_2.
    + lia.
    + eapply (IH i j); [lia|done|done].
Qed.

(** X8.  Questions are asked in ascending order of [number]: a click on
    Next never leads to a question with a smaller number than the one it
    leaves, and the question asked first after a quiz is selected has the
    smallest number of the quiz. *)
Theorem next_never_goes_back (s : Session) :
  (∀ q q', currentQuestion quizBank s = Some q →
           currentQuestion quizBank (advance quizBank s) = Some q' →
           (e_number q <= e_number q')%Z)
  ∧ (∀ q q', questionIndex s = 0 → currentQuestion quizBank s = Some q →
             q' ∈ orderedQuestions quizBank s →
             (e_number q <= e_number q')%Z).
Proof.
  split.
  - intros q q' Hq Hq'. unfold advance, handleNext in Hq'.
    destruct (advanceEnabled quizBank s); [|by simplify_eq].
    case_match; unfold currentQuestion, orderedQuestions in *; simpl in *;
      [|by simplify_eq].
    eapply (Sorted_lookup_le _ (questionIndex s) (questionIndex s + 1));
      [apply questions_sorted|lia|done|done].
  - intros q q' H0 Hq Hin. apply list_elem_of_lookup in Hin as [j Hj].
    unfold currentQuestion in Hq. rewrite H0 in Hq.
    eapply (Sorted_lookup_le _ 0 j); [apply questions_sorted|lia|done|done].
Qed.

(** X9.  The choice a session holds is always one of the choices of the
    question it is on: no click leaves a key behind that the current
    question does not offer. *)
Theorem held_choice_is_offered (s : Session) :
  Reachable quizBank s →
  ∀ key, selectedChoice s = Some key →
         ∃ q, currentQuestion quizBank s = Some q
              ∧ key ∈ dom (choices (base q)).
Proof.
  induction 1 as [|e s Hr IH]; [done|].
  destruct e; simpl.
  - case_bool_decide; [|done].
    unfold selectQuiz, setActiveQuizId, useEffect. simpl.
    destruct (decide (activeQuizId s = Some quizId)) as [Ha|Ha]; [|done].
    intros key Hkey. simpl in Hkey. destruct (IH key Hkey) as (q & Hq & Hin).
    exists q. split; [|done].
    unfold currentQuestion, orderedQuestions in *. simpl. by rewrite <- Ha.
  - unfold choiceOffered.
    destruct (currentQuestion quizBank s) as [q|] eqn:Hq; [|by rewrite Hq].
    case_bool_decide as Hin; [|by rewrite Hq].
    unfold selectChoice. destruct (questionShown quizBank s); [|by rewrite Hq].
    intros key' Hkey. simpl in Hkey. simplify_eq. by exists q.
  - unfold submit, handleSubmit. destruct (submitEnabled quizBank s); [|done].
    by destruct (negb (truthy (selectedChoice s))).
  - unfold advance, handleNext. destruct (advanceEnabled quizBank s); [|done].
    by case_match.
  - unfold replay. by destruct (finished s).
  - unfold exitQuiz, setActiveQuizId, useEffect. simpl.
    destruct (finished s); [|done].
    destruct (decide (activeQuizId s = None)) as [Ha|Ha]; [|done].
    intros key Hkey. simpl in Hkey. destruct (IH key Hkey) as (q & Hq & Hin).
    exists q. split; [|done].
    unfold currentQuestion, orderedQuestions in *. simpl. by rewrite <- Ha.
Qed.

(** *** Feedback *)





(** X12.  The style of a choice button tells the grade: in every session
    the component can be in, a button is green exactly when it is the
    selected choice and the answer is correct, red exactly when it is the
    selected choice of a submitted wrong answer, and it has the plain style
    exactly when it is not the selected choice, so at most one button
    stands out. *)
Theorem statusClass_tells_grade (s : Session) (q : EnrichedQuestion) (key : ChoiceKey) :
  Reachable quizBank s → currentQuestion quizBank s = Some q →
  (statusClass key q s = emeraldClass ↔
     isCorrect quizBank s = true ∧ selectedChoice s = Some key)
  ∧ (statusClass key q s = roseClass ↔
     submitted s = true ∧ selectedChoice s = Some key
     ∧ key ≠ correct_answer (base q))
  ∧ (statusClass key q s = plainClass ↔ selectedChoice s ≠ Some key).
Proof.
  intros Hr Hq. apply Reachable_consistent in Hr as (_ & H2 & _).
  assert (Hgrade : selectedChoice s = Some key → submitted s = true →
            (isCorrect quizBank s = true ↔ key = correct_answer (base q))).
  { intros Hkey Hsub. rewrite isCorrect_true. split.
    - intros (_ & q' & ? & ? & _). congruence.
    - intros Hc. split; [done|]. exists q. split_and!; try congruence.
      intros E. apply (H2 Hsub). by rewrite Hkey, Hc, E. }
  assert (Hnot : submitted s = false → isCorrect quizBank s = false).
  { intros Hsub. apply not_true_iff_false. rewrite isCorrect_true.
    intros [? _]. congruence. }
  unfold statusClass.
  destruct (submitted s) eqn:Hsub; simpl;
    case_bool_decide as Hpick; simpl; try case_bool_decide as Hcorrect.
  all: split_and!; split; intros H; try done.
  all: first
    [ by (split; [apply Hgrade|])
    | by destruct H as (? & ? & ?)
    | by destruct H as [? ?]
    | by (destruct H as [Hc ?]; apply Hgrade in Hc)
    | by (destruct H as [Hc ?]; rewrite Hnot in Hc) ].
Qed.

(** X13.  Picking a key and submitting grades that key, whatever was
    picked or submitted before: on a question that is on the page, for a
    non-empty key, the session afterwards is submitted with that key, on
    the same question, and [isCorrect] says whether the key is the
    question's [correct_answer]. *)
Theorem pick_and_submit_grades (s : Session) (q : EnrichedQuestion) (key : ChoiceKey) :
  questionShown quizBank s = true →
  currentQuestion quizBank s = Some q →
  key ≠ "" →
  submit quizBank (selectChoice quizBank key s)
  = {| activeQuizId := activeQuizId s; questionIndex := questionIndex s;
       selectedChoice := Some key; finished := false; submitted := true |}
  ∧ isCorrect quizBank (submit quizBank (selectChoice quizBank key s))
    = bool_decide (key = correct_answer (base q)).
Proof.
  intros Hshown Hq Hne.
  pose proof Hshown as [Hsome Hf]%questionShown_spec.
  assert (Ht : negb (String.eqb key "") = true) by by apply truthy_Some_ne.
  assert (Hshown1 : questionShown quizBank (handleSelect key s) = true).
  { apply questionShown_spec. split; [|done]. apply currentQuestion_lt.
    by apply currentQuestion_lt in Hsome. }
  assert (Hs : submit quizBank (selectChoice quizBank key s)
    = {| activeQuizId := activeQuizId s; questionIndex := questionIndex s;
         selectedChoice := Some key; finished := false; submitted := true |}).
  { unfold selectChoice. rewrite Hshown.
    unfold submit, submitEnabled, readyToSubmit, handleSubmit.
    rewrite Hshown1. simpl. by rewrite Ht, Hf. }
  split; [done|]. rewrite Hs. unfold isCorrect, currentQuestion, orderedQuestions.
  simpl. unfold currentQuestion, orderedQuestions in Hq. rewrite Hq, Ht.
  apply bool_decide_ext. split; congruence.
Qed.

(** X14.  What a newly selected quiz shows: the notice "No questions
    available" exactly when the identifier yields no question (in
    particular when the bank does not have it), and otherwise the question
    panel, on the first question. *)
Theorem selectQuiz_panel (s : Session) (quizId : string) :
  quizId ≠ "" → activeQuizId s ≠ Some quizId →
  (noQuestionsLoaded quizBank (selectQuiz quizId s) = true ↔
     questions quizBank (Some quizId) = [])
  ∧ (questionShown quizBank (selectQuiz quizId s) = true ↔
     questions quizBank (Some quizId) ≠ [])
  ∧ (available quizBank quizId = false →
     noQuestionsLoaded quizBank (selectQuiz quizId s) = true)
  ∧ currentQuestion quizBank (selectQuiz quizId s)
    = head (questions quizBank (Some quizId)).
Proof.
  intros Hne Ha.
  assert (Hs : selectQuiz quizId s
    = {| activeQuizId := Some quizId; questionIndex := 0;
         selectedChoice := None; finished := false; submitted := false |}).
  { unfold selectQuiz, setActiveQuizId, useEffect. simpl. by rewrite decide_False. }
  rewrite Hs.
  assert (Ht : negb (String.eqb quizId "") = true) by by apply truthy_Some_ne.
  assert (Hempty : noQuestionsLoaded quizBank
      {| activeQuizId := Some quizId; questionIndex := 0;
         selectedChoice := None; finished := false; submitted := false |} = true
      ↔ questions quizBank (Some quizId) = []).
  { unfold noQuestionsLoaded, orderedQuestions. simpl. rewrite Ht. simpl.
    rewrite Nat.eqb_eq. by destruct (questions quizBank (Some quizId)). }
  split_and!.
  - done.
  - rewrite questionShown_spec, currentQuestion_lt.
    unfold orderedQuestions. simpl.
    destruct (questions quizBank (Some quizId)); simpl; split;
      first [done | lia | intros [? _]; lia | (intros _; split; [lia|done])].
  - intros Hav. apply Hempty. unfold available in Hav.
    unfold questions. simpl. rewrite Ht. simpl.
    by destruct (quizBank !! quizId).
  - unfold currentQuestion, orderedQuestions. simpl.
    by destruct (questions quizBank (Some quizId)).
Qed.

(** X15.  Once a run is finished the answers are closed: clicks on a
    choice, on Submit and on Next change nothing, and only the two buttons
    of the completion panel and the quiz picker can change the session. *)
Theorem finished_closes_answers (s : Session) :
  finished s = true →
  ∀ e, step quizBank e s ≠ s →
       e = ClickReplay ∨ e = ClickPickAnother ∨ ∃ quizId, e = ClickQuiz quizId.
Proof.
  intros Hf e Hstep.
  assert (Hshown : questionShown quizBank s = false).
  { apply not_true_iff_false. rewrite questionShown_spec. intros [_ ?]. congruence. }
  destruct e; simpl in Hstep; eauto.
  - destruct (choiceOffered quizBank key s); [|done].
    unfold selectChoice in Hstep. by rewrite Hshown in Hstep.
  - unfold submit, submitEnabled in Hstep. by rewrite Hshown in Hstep.
  - unfold advance, advanceEnabled in Hstep. by rewrite Hshown in Hstep.
Qed.

End Rendering.

(** ** The page on the example bank *)


Lemma nextLabel_announces_witness :
  nextLabel demoBank demoSecond = "Finish"
  ∧ nextLabel demoBank demoAnswered = "Next".
Proof.
  destruct (nextLabel_announces demoBank demoSecond) as [[_ Hfinish] _];
    [reflexivity|].
  destruct (nextLabel_announces demoBank demoAnswered) as [_ [_ Hnext]];
    [reflexivity|].
  split; [apply Hfinish|apply Hnext]; reflexivity.
Defined.

Lemma index_in_bounds_witness :
  is_Some (currentQuestion demoBank demoSecond)
  ∧ 1 ≤ (progress demoBank demoSecond).1 ≤ (progress demoBank demoSecond).2.
Proof.
  apply (index_in_bounds demoBank demoSecond); [reach|].
  vm_compute. discriminate.
Defined.

Lemma exitQuiz_clears_witness :
  exitQuiz demoFinished
  = {| activeQuizId := None; questionIndex := 0; selectedChoice := None;
       finished := false; submitted := false |}.
Proof.
  destruct (exitQuiz_clears demoBank demoFinished) as [Hexit _];
    [reach|reflexivity|exact Hexit].
Defined.


Lemma next_never_goes_back_witness :
  (e_number {| base := demoQ1; e_category := "Graphs" |}
   <= e_number {| base := demoQ2; e_category := "Sorting" |})%Z.
Proof.
  destruct (next_never_goes_back demoBank demoAnswered) as [Hnext _].
  apply Hnext; reflexivity.
Defined.

Lemma held_choice_is_offered_witness :
  ∃ q, currentQuestion demoBank demoAnswered = Some q
       ∧ "B" ∈ dom (choices (base q)).
Proof.
  apply (held_choice_is_offered demoBank demoAnswered); [reach|reflexivity].
Defined.



Lemma statusClass_tells_grade_witness :
  statusClass "B" {| base := demoQ2; e_category := "Sorting" |} demoSecond
  = emeraldClass.
Proof.
  destruct (statusClass_tells_grade demoBank demoSecond
              {| base := demoQ2; e_category := "Sorting" |} "B") as [[_ Hgreen] _];
    [reach|reflexivity|].
  apply Hgreen. split; reflexivity.
Defined.

Lemma pick_and_submit_grades_witness :
  isCorrect demoBank (submit demoBank (selectChoice demoBank "A" demoAnswered))
  = true.
Proof.
  destruct (pick_and_submit_grades demoBank demoAnswered
              {| base := demoQ1; e_category := "Graphs" |} "A") as [_ Hgrade];
    [reflexivity|reflexivity|discriminate|].
  rewrite Hgrade. reflexivity.
Defined.

Lemma selectQuiz_panel_witness :
  noQuestionsLoaded demoBank (selectQuiz "quiz3" demoSecond) = true
  ∧ questionShown demoBank (selectQuiz "quiz2" demoSecond) = true.
Proof.
  destruct (selectQuiz_panel demoBank demoSecond "quiz3") as (_ & _ & Hmissing & _);
    [discriminate|vm_compute; discriminate|].
  destruct (selectQuiz_panel demoBank demoSecond "quiz2") as (_ & Hshown & _);
    [discriminate|vm_compute; discriminate|].
  split; [apply Hmissing; reflexivity|].
  apply Hshown. vm_compute. discriminate.
Defined.

Lemma finished_closes_answers_witness :
  ClickReplay = ClickReplay ∨ ClickReplay = ClickPickAnother
  ∨ ∃ quizId, ClickReplay = ClickQuiz quizId.
Proof.
  apply (finished_closes_answers demoBank demoFinished); [reflexivity|].
  vm_compute. discriminate.
Defined.
